(** * Subtract operation of the deeplearnjs graph engine (src/ops/subtract.ts)

    A shallow embedding of the [Subtract] operation node: its constructor,
    [feedForward], [backProp] and [dispose], together with the parts of
    [util], [graph_util], [TensorArrayMap] and [NDArrayMath] that they call.
    Array values are idealised as rationals [Q]. *)

From Stdlib Require Import QArith Lia.
From stdpp Require Import base list gmap strings.

Open Scope list_scope.

(** ** Data model *)

(** A graph tensor handle: identity plus shape. *)
Record Tensor := mkTensor { tensor_id : nat; tensor_shape : list nat }.

(** A materialised array: buffer identity, shape and values. *)
Record NDArray := mkNDArray { arr_id : nat; shape : list nat; values : list Q }.

(** ** [util] helpers *)

(** Modelled from the spec: [util.sizeFromShape] (not under src/), the
    element count of a shape: 1 for the rank-0 shape, otherwise the product
    of the dimensions, accumulated from the first one. *)
Definition sizeFromShape (sh : list nat) : nat :=
  match sh with
  | [] => 1
  | d :: ds => fold_left Nat.mul ds d
  end.

(** Modelled from the spec: [util.isScalarShape] (not under src/), the
    scalar classifier of section 4.4: the shape denotes exactly one element,
    whatever its rank, i.e. every dimension is 1. *)
Definition isScalarShape (sh : list nat) : bool :=
  forallb (fun d => Nat.eqb d 1) sh.

(** Modelled from the spec: [util.arraysEqual] (not under src/): same length
    and equal entries position by position. *)
Definition arraysEqual (n1 n2 : list nat) : bool :=
  Nat.eqb (length n1) (length n2) &&
  forallb (fun '(a, b) => Nat.eqb a b) (combine n1 n2).

(** [NDArray.size]. *)
Definition size (a : NDArray) : nat := sizeFromShape (shape a).

(** The arrays built by the backend hold one value per element. *)
Definition wf (a : NDArray) : Prop := length (values a) = size a.

(** ** Errors *)

Inductive Err :=
  | NotInArrayMap (key : nat)      (** [TensorArrayMap.get] on an absent key *)
  | AssertionFailed (msg : string) (** [util.assert] *).

(** ** The operation node *)

(** [class Subtract]: its three handles and the lazily created
    [dySizeScalar] ([None] for the null field). *)
Record Subtract := mkSubtract {
  t1 : Tensor;
  t2 : Tensor;
  outTensor : Tensor;
  dySizeScalar : option NDArray
}.

Definition set_dySizeScalar (n : Subtract) (c : NDArray) : Subtract :=
  mkSubtract (t1 n) (t2 n) (outTensor n) (Some c).

(** [constructor(t1, t2, outTensor)] with its [util.assert]. *)
Definition Subtract_new (a b out : Tensor) : Err + Subtract :=
  if Nat.eqb (sizeFromShape (tensor_shape a)) 1 ||
     Nat.eqb (sizeFromShape (tensor_shape b)) 1 ||
     arraysEqual (tensor_shape a) (tensor_shape b)
  then inr (mkSubtract a b out None)
  else inl (AssertionFailed
              "One of t1 or t2 must be a scalar, or t1 and t2 must have the same shape"%string).

Definition construction_fails (a b out : Tensor) : bool :=
  match Subtract_new a b out with inl _ => true | inr _ => false end.

(** ** Execution state *)

(** The two [TensorArrayMap]s of a pass family. *)
Inductive MapKind := Inference | Gradient.

(** The state a call of the node sees: the node itself (whose
    [dySizeScalar] field is mutable), the forward and gradient Value Maps
    (keyed by tensor id), and the backend's buffer bookkeeping: the next
    buffer id, the stack of open scopes (tracked ids, kept ids), and logs of
    every buffer allocated, every buffer disposed and every array written
    into a Value Map (with the map and the key), newest first. *)
Record St := mkSt {
  node : Subtract;
  inferenceArrays : gmap nat NDArray;
  gradientArrays : gmap nat NDArray;
  nextId : nat;
  scopes : list (list nat * list nat);
  allocated : list nat;
  disposed : list nat;
  written : list (MapKind * nat * NDArray)
}.

Inductive Res (A : Type) :=
  | Ok (a : A) (s : St)
  | Fail (e : Err) (s : St).
Arguments Ok {A} a s.
Arguments Fail {A} e s.

(** State and error monad: a failure keeps the state reached when it was
    raised, so that partial effects stay observable. *)
Definition M (A : Type) : Type := St -> Res A.

Global Instance M_ret : MRet M := fun A a s => Ok a s.
Global Instance M_bind : MBind M := fun A B f m s =>
  match m s with
  | Ok a s' => f a s'
  | Fail e s' => Fail e s'
  end.

Definition throw {A} (e : Err) : M A := fun s => Fail e s.

Definition assert (c : bool) (msg : string) : M unit :=
  if c then mret tt else throw (AssertionFailed msg).

Definition this : M Subtract := fun s => Ok (node s) s.

Definition set_node (n : Subtract) : M unit := fun s =>
  Ok tt (mkSt n (inferenceArrays s) (gradientArrays s) (nextId s) (scopes s)
              (allocated s) (disposed s) (written s)).

(** ** [TensorArrayMap] *)

Definition map_of (k : MapKind) (s : St) : gmap nat NDArray :=
  match k with Inference => inferenceArrays s | Gradient => gradientArrays s end.

(** Modelled from the spec: [TensorArrayMap.get] (not under src/) fails
    when the tensor has no entry. *)
Definition get (k : MapKind) (t : Tensor) : M NDArray := fun s =>
  match map_of k s !! tensor_id t with
  | Some a => Ok a s
  | None => Fail (NotInArrayMap (tensor_id t)) s
  end.

(** Modelled from the spec: [TensorArrayMap.set] (not under src/) stores
    the array under the tensor's id, overwriting any previous entry. *)
Definition set (k : MapKind) (t : Tensor) (a : NDArray) : M unit := fun s =>
  let inf := match k with Inference => <[tensor_id t := a]> (inferenceArrays s)
                        | Gradient => inferenceArrays s end in
  let grd := match k with Gradient => <[tensor_id t := a]> (gradientArrays s)
                        | Inference => gradientArrays s end in
  Ok tt (mkSt (node s) inf grd (nextId s) (scopes s) (allocated s)
              (disposed s) ((k, tensor_id t, a) :: written s)).

(** ** Scoped allocation of [NDArrayMath] *)

(** Modelled from the spec: a fresh buffer (the [NDArray] constructor). *)
Definition new_buffer (sh : list nat) (vs : list Q) : M NDArray := fun s =>
  let a := mkNDArray (nextId s) sh vs in
  Ok a (mkSt (node s) (inferenceArrays s) (gradientArrays s) (S (nextId s))
             (scopes s) (nextId s :: allocated s) (disposed s) (written s)).

(** Modelled from the spec: [math.track], which records a buffer in the
    innermost open scope (nothing happens outside any scope). *)
Definition track (a : NDArray) : M NDArray := fun s =>
  let sc := match scopes s with
            | (tr, kp) :: rest => (arr_id a :: tr, kp) :: rest
            | [] => []
            end in
  Ok a (mkSt (node s) (inferenceArrays s) (gradientArrays s) (nextId s)
             sc (allocated s) (disposed s) (written s)).

(** Modelled from the spec: the [keep] callback of [math.scope], which
    exempts a buffer from the innermost scope's clean-up. *)
Definition keep (a : NDArray) : M NDArray := fun s =>
  let sc := match scopes s with
            | (tr, kp) :: rest => (tr, arr_id a :: kp) :: rest
            | [] => []
            end in
  Ok a (mkSt (node s) (inferenceArrays s) (gradientArrays s) (nextId s)
             sc (allocated s) (disposed s) (written s)).

(** Modelled from the spec: releasing one buffer ([NDArray.dispose]),
    recorded in the disposal log.  The model does not make a released
    array unreadable, so no property here concerns reading one. *)
Definition dispose_buffer (i : nat) : M unit := fun s =>
  Ok tt (mkSt (node s) (inferenceArrays s) (gradientArrays s) (nextId s)
              (scopes s) (allocated s) (i :: disposed s) (written s)).

Definition push_scope : M unit := fun s =>
  Ok tt (mkSt (node s) (inferenceArrays s) (gradientArrays s) (nextId s)
              (([], []) :: scopes s) (allocated s) (disposed s) (written s)).

Definition pop_scope : M (list nat * list nat) := fun s =>
  match scopes s with
  | fr :: rest =>
      Ok fr (mkSt (node s) (inferenceArrays s) (gradientArrays s) (nextId s)
                  rest (allocated s) (disposed s) (written s))
  | [] => Ok ([], []) s
  end.

Fixpoint dispose_all (l : list nat) : M unit :=
  match l with
  | [] => mret tt
  | i :: l' => dispose_buffer i ;; dispose_all l'
  end.

(** The buffers of a closing scope that were tracked but not kept. *)
Definition not_kept (tr kp : list nat) : list nat :=
  List.filter (fun i => negb (existsb (Nat.eqb i) kp)) tr.
Arguments not_kept : simpl never.

(** Modelled from the spec: [math.scope(fn)]: opens a scope, runs [fn],
    then disposes every buffer tracked in the scope that was not kept. *)
Definition scope (body : M unit) : M unit :=
  push_scope ;;
  body ;;
  '(tr, kp) ← pop_scope;
  dispose_all (not_kept tr kp).

(** Modelled from the spec: result of a backend kernel, tracked by the
    innermost scope. *)
Definition math_result (sh : list nat) (vs : list Q) : M NDArray :=
  a ← new_buffer sh vs; track a.

(** Modelled from the spec: [Scalar.new(v)], a buffer built directly,
    outside the backend kernels, and so not tracked by any scope. *)
Definition Scalar_new (v : Q) : M NDArray := new_buffer [] [v].

(** [NDArray.get()] of a one-element array. *)
Definition scalar_value (c : NDArray) : Q := default 0%Q (head (values c)).

(** ** Backend kernels of [NDArrayMath] used by the node *)

(** Modelled from the spec: [math.scalarMinusArray(c, a)], [c - a] with the
    scalar broadcast over [a]. *)
Definition scalarMinusArray (c a : NDArray) : M NDArray :=
  assert (Nat.eqb (size c) 1) "Argument c must be a Scalar"%string ;;
  math_result (shape a) (map (fun x => scalar_value c - x)%Q (values a)).

(** Modelled from the spec: [math.arrayMinusScalar(a, c)]. *)
Definition arrayMinusScalar (a c : NDArray) : M NDArray :=
  assert (Nat.eqb (size c) 1) "Argument c must be a Scalar"%string ;;
  math_result (shape a) (map (fun x => x - scalar_value c)%Q (values a)).

(** Modelled from the spec: [math.sub(a, b)], elementwise on equal shapes. *)
Definition sub (a b : NDArray) : M NDArray :=
  assert (arraysEqual (shape a) (shape b)) "Error in sub"%string ;;
  math_result (shape a) (zip_with Qminus (values a) (values b)).

(** Modelled from the spec: [math.sum(a)], the sum of all elements as a
    scalar. *)
Definition sum (a : NDArray) : M NDArray :=
  math_result [] [fold_left Qplus (values a) 0%Q].

(** Modelled from the spec: [math.neg(a)]. *)
Definition neg (a : NDArray) : M NDArray :=
  math_result (shape a) (map Qopp (values a)).

(** Modelled from the spec: [math.divide(a, b)], elementwise on equal
    shapes. *)
Definition divide (a b : NDArray) : M NDArray :=
  assert (arraysEqual (shape a) (shape b)) "Error in divide"%string ;;
  math_result (shape a) (zip_with Qdiv (values a) (values b)).

(** ** [Subtract.feedForward] *)

Definition feedForward : M unit :=
  n ← this;
  a ← get Inference (t1 n);
  b ← get Inference (t2 n);
  scope (
    result ← (if isScalarShape (shape a) then scalarMinusArray a b
              else if isScalarShape (shape b) then arrayMinusScalar a b
              else sub a b);
    r ← keep result;
    set Inference (outTensor n) r).

(** ** [Subtract.backProp] *)

(** [if (this.dySizeScalar == null) this.dySizeScalar = Scalar.new(dy.size)],
    returning the field's value afterwards. *)
Definition ensure_dySizeScalar (dy : NDArray) : M NDArray :=
  n ← this;
  match dySizeScalar n with
  | Some c => mret c
  | None =>
      c ← Scalar_new (inject_Z (Z.of_nat (size dy)));
      set_node (set_dySizeScalar n c) ;;
      mret c
  end.

(** [shouldBackProp] is the Graph Driver's query [graph_util.shouldBackProp],
    a boolean per tensor handle (given by its id). *)
Definition backProp (shouldBackProp : nat -> bool) : M unit :=
  n ← this;
  dy ← get Gradient (outTensor n);
  scope (
    (if shouldBackProp (tensor_id (t1 n)) then
       if isScalarShape (tensor_shape (t1 n)) then
         sm ← sum dy;
         c ← ensure_dySizeScalar dy;
         d ← divide sm c;
         k ← keep d;
         set Gradient (t1 n) k
       else
         k ← keep dy;
         set Gradient (t1 n) k
     else mret tt) ;;
    (if shouldBackProp (tensor_id (t2 n)) then
       if isScalarShape (tensor_shape (t2 n)) then
         sm ← sum dy;
         negSum ← neg sm;
         c ← ensure_dySizeScalar dy;
         d ← divide negSum c;
         k ← keep d;
         set Gradient (t2 n) k
       else
         nd ← neg dy;
         k ← keep nd;
         set Gradient (t2 n) k
     else mret tt)).

(** ** [Subtract.dispose] *)

Definition dispose : M unit :=
  n ← this;
  match dySizeScalar n with
  | Some c => dispose_buffer (arr_id c)
  | None => mret tt
  end.

(** ** Concrete runs *)

Definition run {A} (m : M A) (s : St) : Res A := m s.

Definition state_of {A} (r : Res A) : St :=
  match r with Ok _ s => s | Fail _ s => s end.

Definition succeeded {A} (r : Res A) : bool :=
  match r with Ok _ _ => true | Fail _ _ => false end.

Definition init_state (n : Subtract) (inf grd : gmap nat NDArray) (next : nat) : St :=
  mkSt n inf grd next [] [] [] [].

Definition arr (i : nat) (sh : list nat) (vs : list Z) : NDArray :=
  mkNDArray i sh (map inject_Z vs).

(** The Graph Driver writing an output gradient before a [backProp]. *)
Definition feed_gradient (t : Tensor) (a : NDArray) (s : St) : St :=
  mkSt (node s) (inferenceArrays s) (<[tensor_id t := a]> (gradientArrays s))
       (nextId s) (scopes s) (allocated s) (disposed s) (written s).

Definition all_grads : nat -> bool := fun _ => true.

(** Forward inputs of the spec's examples. *)
Definition fw_state (a b : NDArray) : St :=
  init_state (mkSubtract (mkTensor 1 (shape a)) (mkTensor 2 (shape b)) (mkTensor 3 [])
                         None)
             (<[1 := a]> (<[2 := b]> ∅)) ∅ 20.

Definition ex_A_vec := arr 10 [2] [3; 5]%Z.
Definition ex_B_vec := arr 11 [2] [1; 2]%Z.
Definition ex_A_scalar := arr 10 [] [5]%Z.
Definition ex_B_vec3 := arr 11 [3] [1; 2; 3]%Z.
Definition ex_A_vec3 := arr 10 [3] [1; 2; 3]%Z.
Definition ex_B_scalar := arr 11 [] [2]%Z.

(** A node whose left operand is scalar-shaped, with the output gradient
    [dy = [2,2,2,2]] fed for its output handle. *)
Definition ex_node : Subtract :=
  mkSubtract (mkTensor 1 []) (mkTensor 2 [4]) (mkTensor 3 [4]) None.
Definition ex_dy := arr 10 [4] [2; 2; 2; 2]%Z.
Definition ex_state : St := init_state ex_node ∅ (<[3 := ex_dy]> ∅) 20.

(** After a first [backProp]: the divisor [dy.size = 4] is now cached. *)
Definition after_first : St :=
  Eval vm_compute in state_of (run (backProp all_grads) ex_state).

(** A second output gradient with two elements, fed for the next call. *)
Definition ex_dy2 := arr 11 [2] [2; 2]%Z.
Definition before_second : St :=
  Eval vm_compute in feed_gradient (mkTensor 3 [4]) ex_dy2 after_first.

(** A node whose inputs are both non-scalar, with [dy = [1,1,1]]. *)
Definition ex_full_node : Subtract :=
  mkSubtract (mkTensor 1 [3]) (mkTensor 2 [3]) (mkTensor 3 [3]) None.
Definition ex_full_state : St :=
  init_state ex_full_node ∅ (<[3 := arr 10 [3] [1; 1; 1]%Z]> ∅) 20.

(** Forward inputs [A = [3,5]], [B = [1,2]], and the state after the call. *)
Definition fw_vec : St := fw_state ex_A_vec ex_B_vec.
Definition fw_vec_after : St := Eval vm_compute in state_of (run feedForward fw_vec).

(** Stored inputs of shapes [2] and [3], neither scalar: [math.sub] rejects
    them. *)
Definition fw_mismatch : St := fw_state ex_A_vec ex_B_vec3.
Definition fw_mismatch_after : St :=
  Eval vm_compute in state_of (run feedForward fw_mismatch).

(** Two scalar operands [A = 5], [B = 2]. *)
Definition fw_scalars : St := fw_state ex_A_scalar ex_B_scalar.

(** The node of [fw_vec] with other declared shapes for its handles. *)
Definition ex_redeclared_node : Subtract :=
  mkSubtract (mkTensor 1 []) (mkTensor 2 [7]) (mkTensor 3 [9]) None.

Definition no_grads : nat -> bool := fun _ => false.

(** A node computing [x - x], with [dy = [1,1,1]]. *)
Definition ex_self_node : Subtract :=
  mkSubtract (mkTensor 1 [3]) (mkTensor 1 [3]) (mkTensor 3 [3]) None.
Definition ex_self_state : St :=
  init_state ex_self_node ∅ (<[3 := arr 10 [3] [1; 1; 1]%Z]> ∅) 20.

Definition ex_full_after : St :=
  Eval vm_compute in state_of (run (backProp all_grads) ex_full_state).

(** ** Predicates of the properties *)

Definition with_disposed (s : St) (d : list nat) : St :=
  mkSt (node s) (inferenceArrays s) (gradientArrays s) (nextId s) (scopes s)
       (allocated s) d (written s).

(** The divisor the scalar branches of [backProp] will use: the cached
    scalar's value when it exists, otherwise [dy.size], which is what the
    first scalar branch caches. *)
Definition divisor_is (c : option NDArray) (dy : NDArray) (k : Q) : Prop :=
  match c with
  | None => k = inject_Z (Z.of_nat (size dy))
  | Some c => shape c = [] /\ values c = [k]
  end.

(** Sum of the elements of [dy], as [math.sum] computes it. *)
Definition sum_of (dy : NDArray) : Q := fold_left Qplus (values dy) 0%Q.

(** [preserves P m]: whatever the outcome of [m], success or failure, the
    state it leaves satisfies [P] if the state it started from did. *)
Definition preserves (P : St -> Prop) {A} (m : M A) : Prop :=
  forall s, P s -> P (state_of (m s)).

(** [m] leaves the node, the gradient map and the write log alone. *)
Definition quiet {A} (m : M A) : Prop :=
  forall s, node (state_of (m s)) = node s /\
            gradientArrays (state_of (m s)) = gradientArrays s /\
            written (state_of (m s)) = written s.

Definition ngw_closed (P : St -> Prop) : Prop :=
  forall s s', node s' = node s -> gradientArrays s' = gradientArrays s ->
               written s' = written s -> P s -> P s'.

(** [set_node] with the node's handles unchanged. *)
Definition same_handles (n n' : Subtract) : Prop :=
  t1 n' = t1 n /\ t2 n' = t2 n /\ outTensor n' = outTensor n.

(** The cached divisor, when the call created it. *)
Definition cache_created (s s' : St) : list nat :=
  match dySizeScalar (node s), dySizeScalar (node s') with
  | None, Some c => [arr_id c]
  | _, _ => []
  end.

(** From [s] to [s']: the call's allocations [na], disposals [nd] and
    Value Map writes [nw]; it disposed only buffers it allocated, and of
    those it kept alive exactly the ones it wrote into a Value Map plus the
    divisor it cached. *)
Definition scope_clean (s s' : St) : Prop :=
  exists na nd nw,
    allocated s' = na ++ allocated s /\
    disposed s' = nd ++ disposed s /\
    written s' = nw ++ written s /\
    (forall i, In i nd -> In i na) /\
    (forall i, In i na ->
       (~ In i nd <-> In i (map (fun e => arr_id e.2) nw) \/ In i (cache_created s s'))).

(** The state [s] seen by a node [n] in place of its own. *)
Definition with_node (s : St) (n : Subtract) : St :=
  mkSt n (inferenceArrays s) (gradientArrays s) (nextId s) (scopes s)
       (allocated s) (disposed s) (written s).

Definition map_res {A} (f : St -> St) (r : Res A) : Res A :=
  match r with Ok a s => Ok a (f s) | Fail e s => Fail e (f s) end.

(** * Properties *)

(** ** Frame reasoning *)


(** ** Symbolic execution *)

Lemma dispose_all_ok (l : list nat) (s : St) :
  dispose_all l s = Ok tt (with_disposed s (rev l ++ disposed s)).
Proof.
  revert s; induction l as [|i l IH]; intros s; cbn.
  - by destruct s.
  - unfold mbind, M_bind; cbn. rewrite IH. unfold with_disposed; cbn.
    by rewrite <- app_assoc.
Qed.

Ltac unfold_node :=
  unfold run, feedForward, backProp, dispose, scope, ensure_dySizeScalar,
    scalarMinusArray, arrayMinusScalar, sub, sum, neg, divide, assert,
    math_result, Scalar_new, push_scope, pop_scope, this, get, set, map_of,
    keep, track, new_buffer, set_node, set_dySizeScalar, scalar_value, throw, mbind,
    M_bind, mret, M_ret in *; cbn in *.

(** Runs the node symbolically, rewriting with the case hypotheses. *)
Ltac exec :=
  unfold_node;
  repeat match goal with
    | H : ?x = _ |- context [?x] => rewrite H; cbn
    end;
  rewrite ?dispose_all_ok; cbn.

(** ** Shape helpers *)

Lemma fold_left_mul_eq_1 (ds : list nat) (d : nat) :
  fold_left Nat.mul ds d = 1 <-> d = 1 /\ forallb (fun e => Nat.eqb e 1) ds = true.
Proof.
  revert d; induction ds as [|e ds IH]; intros d; cbn.
  - tauto.
  - rewrite IH, andb_true_iff, Nat.eqb_eq, Nat.mul_eq_1. tauto.
Qed.

Lemma arraysEqual_spec (n1 n2 : list nat) :
  arraysEqual n1 n2 = true <-> n1 = n2.
Proof.
  unfold arraysEqual. revert n2.
  induction n1 as [|a n1 IH]; intros [|b n2]; cbn; try (split; congruence).
  rewrite !andb_true_iff, Nat.eqb_eq, Nat.eqb_eq. split.
  - intros [Hl [Hab Hr]]. subst b.
    assert (n1 = n2) as -> by (apply IH; rewrite andb_true_iff, Nat.eqb_eq; auto).
    reflexivity.
  - intros [= -> ->].
    pose proof (proj2 (IH n2) eq_refl) as Hn.
    apply andb_true_iff in Hn. rewrite Nat.eqb_eq in Hn. tauto.
Qed.

Lemma isScalarShape_size (sh : list nat) :
  isScalarShape sh = true -> sizeFromShape sh = 1.
Proof.
  unfold isScalarShape. destruct sh as [|d ds]; cbn; [reflexivity|].
  rewrite andb_true_iff, Nat.eqb_eq, fold_left_mul_eq_1. tauto.
Qed.

Lemma sizeFromShape_scalar (sh : list nat) :
  sizeFromShape sh = 1 -> isScalarShape sh = true.
Proof.
  unfold isScalarShape. destruct sh as [|d ds]; cbn; [reflexivity|].
  rewrite andb_true_iff, Nat.eqb_eq, fold_left_mul_eq_1. tauto.
Qed.

Lemma wf_scalar (a : NDArray) :
  wf a -> isScalarShape (shape a) = true -> exists c, values a = [c].
Proof.
  unfold wf, size. intros Hw Hs. rewrite (isScalarShape_size _ Hs) in Hw.
  destruct (values a) as [|c [|]]; cbn in Hw; try lia. eauto.
Qed.

(** C5: the constructor's scalar test ([sizeFromShape(shape) === 1]) and
    the dispatch test of [feedForward] and [backProp] ([isScalarShape])
    classify every shape the same way. *)
Theorem scalar_tests_agree (sh : list nat) :
  Nat.eqb (sizeFromShape sh) 1 = isScalarShape sh.
Proof.
  apply eq_iff_eq_true. rewrite Nat.eqb_eq.
  split; [apply sizeFromShape_scalar|apply isScalarShape_size].
Qed.

(** C4: constructing a [Subtract] node fails exactly when neither operand
    shape has one element and the two shapes differ. *)
Theorem construction_fails_iff (a b out : Tensor) :
  construction_fails a b out = true <->
  sizeFromShape (tensor_shape a) <> 1 /\ sizeFromShape (tensor_shape b) <> 1 /\
  tensor_shape a <> tensor_shape b.
Proof.
  unfold construction_fails, Subtract_new.
  destruct (Nat.eqb_spec (sizeFromShape (tensor_shape a)) 1) as [Ha|Ha]; cbn;
    [split; [discriminate| tauto]|].
  destruct (Nat.eqb_spec (sizeFromShape (tensor_shape b)) 1) as [Hb|Hb]; cbn;
    [split; [discriminate| tauto]|].
  destruct (arraysEqual (tensor_shape a) (tensor_shape b)) eqn:He.
  - apply arraysEqual_spec in He. split; [discriminate| tauto].
  - split; [|reflexivity]. intros _. repeat split; auto.
    intros Heq. apply arraysEqual_spec in Heq. congruence.
Qed.

(** ** Backward pass *)

(** C2: with both inputs non-scalar and both requiring gradients,
    [backProp] stores [dy] itself for [t1], then the elementwise negation
    of [dy] for [t2]. *)
Theorem backProp_same_shape (shouldBackProp : nat -> bool) (s : St) (dy : NDArray) :
  gradientArrays s !! tensor_id (outTensor (node s)) = Some dy ->
  shouldBackProp (tensor_id (t1 (node s))) = true ->
  shouldBackProp (tensor_id (t2 (node s))) = true ->
  isScalarShape (tensor_shape (t1 (node s))) = false ->
  isScalarShape (tensor_shape (t2 (node s))) = false ->
  exists s' nd, run (backProp shouldBackProp) s = Ok tt s' /\
    shape nd = shape dy /\ values nd = map Qopp (values dy) /\
    gradientArrays s' =
      <[tensor_id (t2 (node s)) := nd]> (<[tensor_id (t1 (node s)) := dy]> (gradientArrays s)).
Proof.
  destruct s as [[T1 T2 O C] inf grd nx sc al dp wr]; cbn.
  intros Hdy H1 H2 S1 S2. exec.
  eexists; exists (mkNDArray nx (shape dy) (map Qopp (values dy))).
  split; [reflexivity|]. cbn. repeat split.
Qed.

Ltac finish :=
  repeat match goal with
    | |- exists _, _ => eexists
    | |- _ /\ _ => split
    end;
  try reflexivity; cbn; rewrite ?lookup_insert_eq;
  try reflexivity; try reflexivity; auto.

Lemma backProp_scalar_t1 (shouldBackProp : nat -> bool) (s : St) (dy : NDArray) (k : Q) :
  gradientArrays s !! tensor_id (outTensor (node s)) = Some dy ->
  divisor_is (dySizeScalar (node s)) dy k ->
  shouldBackProp (tensor_id (t1 (node s))) = true ->
  isScalarShape (tensor_shape (t1 (node s))) = true ->
  exists s' g g2, run (backProp shouldBackProp) s = Ok tt s' /\
    shape g = [] /\ values g = [(sum_of dy / k)%Q] /\
    gradientArrays s' =
      if shouldBackProp (tensor_id (t2 (node s)))
      then <[tensor_id (t2 (node s)) := g2]> (<[tensor_id (t1 (node s)) := g]> (gradientArrays s))
      else <[tensor_id (t1 (node s)) := g]> (gradientArrays s).
Proof.
  destruct s as [[T1 T2 O C] inf grd nx sc al dp wr]; cbn.
  intros Hdy Hk H1 S1. unfold sum_of.
  destruct C as [c|]; cbn in Hk; [destruct Hk as [Hcs Hcv]|subst k];
    destruct (shouldBackProp (tensor_id T2)) eqn:H2;
    [destruct (isScalarShape (tensor_shape T2)) eqn:S2| |
     destruct (isScalarShape (tensor_shape T2)) eqn:S2|];
    exec; finish.
Qed.

Lemma backProp_scalar_t2 (shouldBackProp : nat -> bool) (s : St) (dy : NDArray) (k : Q) :
  gradientArrays s !! tensor_id (outTensor (node s)) = Some dy ->
  divisor_is (dySizeScalar (node s)) dy k ->
  shouldBackProp (tensor_id (t2 (node s))) = true ->
  isScalarShape (tensor_shape (t2 (node s))) = true ->
  exists s' g, run (backProp shouldBackProp) s = Ok tt s' /\
    shape g = [] /\ values g = [(- sum_of dy / k)%Q] /\
    gradientArrays s' !! tensor_id (t2 (node s)) = Some g.
Proof.
  destruct s as [[T1 T2 O C] inf grd nx sc al dp wr]; cbn.
  intros Hdy Hk H2 S2. unfold sum_of.
  destruct C as [c|]; cbn in Hk; [destruct Hk as [Hcs Hcv]|subst k];
    destruct (shouldBackProp (tensor_id T1)) eqn:H1;
    [destruct (isScalarShape (tensor_shape T1)) eqn:S1| |
     destruct (isScalarShape (tensor_shape T1)) eqn:S1|];
    exec; finish.
Qed.

Lemma quiet_preserves (P : St -> Prop) {A} (m : M A) :
  ngw_closed P -> quiet m -> preserves P m.
Proof. intros HP Hm s Hs. destruct (Hm s) as (?&?&?). eapply HP; eauto. Qed.

Lemma preserves_bind (P : St -> Prop) {A B} (m : M A) (f : A -> M B) :
  preserves P m -> (forall a, preserves P (f a)) -> preserves P (m ≫= f).
Proof.
  intros Hm Hf s Hs. specialize (Hm s Hs). unfold mbind, M_bind.
  destruct (m s) as [a s'|e s']; cbn in *; [apply Hf|]; auto.
Qed.

Lemma preserves_this (P : St -> Prop) (Q : Subtract -> Prop) {B} (f : Subtract -> M B) :
  (forall s, P s -> Q (node s)) -> (forall n, Q n -> preserves P (f n)) ->
  preserves P (this ≫= f).
Proof. intros HQ Hf s Hs. exact (Hf (node s) (HQ s Hs) s Hs). Qed.

Lemma preserves_ret (P : St -> Prop) {A} (a : A) : preserves P (mret a).
Proof. intros s Hs. exact Hs. Qed.

Lemma quiet_bind {A B} (m : M A) (f : A -> M B) :
  quiet m -> (forall a, quiet (f a)) -> quiet (m ≫= f).
Proof.
  intros Hm Hf s. destruct (Hm s) as (H1&H2&H3). unfold mbind, M_bind.
  destruct (m s) as [a s'|e s']; cbn in *; [|auto].
  destruct (Hf a s') as (?&?&?). repeat split; congruence.
Qed.

Lemma quiet_ret {A} (a : A) : quiet (mret a).
Proof. intros s. auto. Qed.

Ltac quiet_prim := intros [? ? ? ? [|[? ?] ?] ? ? ?]; cbn; auto.

Lemma quiet_get k t : quiet (get k t).
Proof. intros s. unfold get. destruct (map_of k s !! tensor_id t); auto. Qed.
Lemma quiet_keep a : quiet (keep a).
Proof. quiet_prim. Qed.
Lemma quiet_assert c m : quiet (assert c m).
Proof. unfold assert. destruct c; intros s; auto. Qed.
Lemma quiet_math_result sh vs : quiet (math_result sh vs).
Proof. apply quiet_bind; [quiet_prim|intros a; quiet_prim]. Qed.
Lemma quiet_Scalar_new v : quiet (Scalar_new v).
Proof. quiet_prim. Qed.
Lemma quiet_dispose_buffer i : quiet (dispose_buffer i).
Proof. quiet_prim. Qed.
Lemma quiet_dispose_all l : quiet (dispose_all l).
Proof. intros s. rewrite dispose_all_ok. auto. Qed.
Lemma quiet_sum a : quiet (sum a).
Proof. apply quiet_math_result. Qed.
Lemma quiet_neg a : quiet (neg a).
Proof. apply quiet_math_result. Qed.
Lemma quiet_divide a b : quiet (divide a b).
Proof. apply quiet_bind; [apply quiet_assert|intros; apply quiet_math_result]. Qed.

Lemma preserves_scope (P : St -> Prop) (body : M unit) :
  ngw_closed P -> preserves P body -> preserves P (scope body).
Proof.
  intros HP Hb. unfold scope.
  apply preserves_bind; [apply quiet_preserves; [done|quiet_prim]|intros _].
  apply preserves_bind; [done|intros _].
  apply preserves_bind; [apply quiet_preserves; [done|quiet_prim]|].
  intros [tr kp]. apply quiet_preserves; [done|apply quiet_dispose_all].
Qed.

Create HintDb frame.
#[local] Hint Resolve quiet_get quiet_keep quiet_assert quiet_math_result
  quiet_Scalar_new quiet_dispose_buffer quiet_dispose_all quiet_sum quiet_neg
  quiet_divide quiet_ret : frame.

(** Frame of [backProp]: any state property that only the writes of the
    gradient entries and the caching of [dySizeScalar] could break, and
    that survives both, holds after the call. *)
Lemma preserves_backProp (P : St -> Prop) (shouldBackProp : nat -> bool) (n0 : Subtract) :
  ngw_closed P ->
  (forall s, P s -> same_handles n0 (node s)) ->
  (forall dy, preserves P (ensure_dySizeScalar dy)) ->
  (forall u a, (u = t1 n0 /\ shouldBackProp (tensor_id u) = true \/
                u = t2 n0 /\ shouldBackProp (tensor_id u) = true) ->
               preserves P (set Gradient u a)) ->
  preserves P (backProp shouldBackProp).
Proof.
  intros HP Hh He Hs. unfold backProp.
  apply (preserves_this P (same_handles n0)); [exact Hh|].
  intros n (E1&E2&E3). rewrite E1, E2.
  apply preserves_bind; [apply quiet_preserves; auto with frame|intros dy].
  apply preserves_scope; [done|].
  apply preserves_bind.
  - destruct (shouldBackProp (tensor_id (t1 n0))) eqn:H1; [|apply preserves_ret].
    destruct (isScalarShape (tensor_shape (t1 n0))).
    + apply preserves_bind; [apply quiet_preserves; auto with frame|intros sm].
      apply preserves_bind; [apply He|intros c].
      apply preserves_bind; [apply quiet_preserves; auto with frame|intros d].
      apply preserves_bind; [apply quiet_preserves; auto with frame|intros k].
      apply Hs; auto.
    + apply preserves_bind; [apply quiet_preserves; auto with frame|intros k].
      apply Hs; auto.
  - intros _.
    destruct (shouldBackProp (tensor_id (t2 n0))) eqn:H2; [|apply preserves_ret].
    destruct (isScalarShape (tensor_shape (t2 n0))).
    + apply preserves_bind; [apply quiet_preserves; auto with frame|intros sm].
      apply preserves_bind; [apply quiet_preserves; auto with frame|intros ng].
      apply preserves_bind; [apply He|intros c].
      apply preserves_bind; [apply quiet_preserves; auto with frame|intros d].
      apply preserves_bind; [apply quiet_preserves; auto with frame|intros k].
      apply Hs; auto.
    + apply preserves_bind; [apply quiet_preserves; auto with frame|intros nd].
      apply preserves_bind; [apply quiet_preserves; auto with frame|intros k].
      apply Hs; auto.
Qed.

(** C7: an input handle whose gradient the Graph Driver does not require
    gets no write in the gradient map: [backProp], whether it succeeds or
    fails, leaves that handle's entry as it was and logs no write under
    it.  (Stated for every such handle, in particular [t1] and [t2].) *)
Theorem backProp_skips_unrequired (shouldBackProp : nat -> bool) (s : St) (t : Tensor) :
  shouldBackProp (tensor_id t) = false ->
  gradientArrays (state_of (run (backProp shouldBackProp) s)) !! tensor_id t =
    gradientArrays s !! tensor_id t /\
  exists new, written (state_of (run (backProp shouldBackProp) s)) = new ++ written s /\
    Forall (fun e => e.1 <> (Gradient, tensor_id t)) new.
Proof.
  intros Hf. set (k := tensor_id t) in *.
  set (P := fun s' => same_handles (node s) (node s') /\
              gradientArrays s' !! k = gradientArrays s !! k /\
              exists new, written s' = new ++ written s /\
                Forall (fun e => e.1 <> (Gradient, k)) new).
  assert (HP : ngw_closed P).
  { intros a b Hn Hg Hw HPa. unfold P in *. rewrite Hn, Hg, Hw. exact HPa. }
  assert (Hb : preserves P (backProp shouldBackProp)).
  { apply (preserves_backProp P shouldBackProp (node s)); [exact HP|intros s' Hs'; apply Hs'| |].
    - intros dy. unfold ensure_dySizeScalar.
      apply (preserves_this P (same_handles (node s))); [intros s' Hs'; apply Hs'|].
      intros n Hn. destruct (dySizeScalar n); [apply preserves_ret|].
      apply preserves_bind; [apply quiet_preserves; auto with frame|intros c].
      apply preserves_bind; [|intros _; apply preserves_ret].
      intros s' (Hh&H1&H2). unfold P, same_handles in *; cbn. tauto.
    - intros u a Hu s' (Hh&H1&new&H2&H3).
      assert (Hne : tensor_id u <> k).
      { intros E. destruct Hu as [[_ Hu]|[_ Hu]]; rewrite E in Hu; congruence. }
      unfold P; cbn. repeat split; try apply Hh.
      + rewrite lookup_insert_ne by congruence. exact H1.
      + exists ((Gradient, tensor_id u, a) :: new). rewrite H2. split; [done|].
        constructor; [cbn; congruence|exact H3]. }
  assert (Hs : P s).
  { unfold P, same_handles. repeat split; auto. exists []. auto. }
  destruct (Hb s Hs) as (_&H1&H2). auto.
Qed.

(** C3 (as amended): a scalar-shaped input that requires a gradient gets
    [sum(dy)] divided by the node's divisor [k], negated for [t2].  The
    divisor is the value of the cached scalar when one exists, whatever
    [dy.size] is now, and otherwise [dy.size], which the call caches
    ([divisor_is]).  So the gradient is the mean of [dy] when no divisor is
    cached yet, or when the cached one holds [dy.size], and [sum(dy) / k]
    for a cached [k] that differs from [dy.size]. *)
Theorem backProp_scalar_mean (shouldBackProp : nat -> bool) (s : St) (dy : NDArray) (k : Q) :
  gradientArrays s !! tensor_id (outTensor (node s)) = Some dy ->
  divisor_is (dySizeScalar (node s)) dy k ->
  (shouldBackProp (tensor_id (t1 (node s))) = true ->
   isScalarShape (tensor_shape (t1 (node s))) = true ->
   exists s' g g2, run (backProp shouldBackProp) s = Ok tt s' /\
     shape g = [] /\ values g = [(sum_of dy / k)%Q] /\
     gradientArrays s' =
       if shouldBackProp (tensor_id (t2 (node s)))
       then <[tensor_id (t2 (node s)) := g2]> (<[tensor_id (t1 (node s)) := g]> (gradientArrays s))
       else <[tensor_id (t1 (node s)) := g]> (gradientArrays s)) /\
  (shouldBackProp (tensor_id (t2 (node s))) = true ->
   isScalarShape (tensor_shape (t2 (node s))) = true ->
   exists s' g, run (backProp shouldBackProp) s = Ok tt s' /\
     shape g = [] /\ values g = [(- sum_of dy / k)%Q] /\
     gradientArrays s' !! tensor_id (t2 (node s)) = Some g).
Proof.
  intros Hdy Hk. split; intros H S.
  - exact (backProp_scalar_t1 shouldBackProp s dy k Hdy Hk H S).
  - exact (backProp_scalar_t2 shouldBackProp s dy k Hdy Hk H S).
Qed.

(** C10: the cached divisor is created once and then frozen.  A cached
    scalar survives every [backProp] call unchanged; with none cached, the
    first call running a scalar branch caches [dy.size]; and a call with a
    cached scalar holding [k] divides by [k], whatever [dy.size] now is. *)
Theorem dySizeScalar_frozen (shouldBackProp : nat -> bool) :
  (forall (s : St) (c : NDArray), dySizeScalar (node s) = Some c ->
     dySizeScalar (node (state_of (run (backProp shouldBackProp) s))) = Some c) /\
  (forall (s : St) (dy : NDArray), dySizeScalar (node s) = None ->
     gradientArrays s !! tensor_id (outTensor (node s)) = Some dy ->
     (shouldBackProp (tensor_id (t1 (node s))) = true /\
        isScalarShape (tensor_shape (t1 (node s))) = true \/
      shouldBackProp (tensor_id (t2 (node s))) = true /\
        isScalarShape (tensor_shape (t2 (node s))) = true) ->
     exists s' c, run (backProp shouldBackProp) s = Ok tt s' /\
       dySizeScalar (node s') = Some c /\ shape c = [] /\
       values c = [inject_Z (Z.of_nat (size dy))]) /\
  (forall (s : St) (dy c : NDArray) (k : Q), dySizeScalar (node s) = Some c ->
     shape c = [] -> values c = [k] ->
     gradientArrays s !! tensor_id (outTensor (node s)) = Some dy ->
     (shouldBackProp (tensor_id (t1 (node s))) = true ->
      isScalarShape (tensor_shape (t1 (node s))) = true ->
      exists s' g g2, run (backProp shouldBackProp) s = Ok tt s' /\
        values g = [(sum_of dy / k)%Q] /\
        gradientArrays s' =
          if shouldBackProp (tensor_id (t2 (node s)))
          then <[tensor_id (t2 (node s)) := g2]> (<[tensor_id (t1 (node s)) := g]> (gradientArrays s))
          else <[tensor_id (t1 (node s)) := g]> (gradientArrays s)) /\
     (shouldBackProp (tensor_id (t2 (node s))) = true ->
      isScalarShape (tensor_shape (t2 (node s))) = true ->
      exists s' g, run (backProp shouldBackProp) s = Ok tt s' /\
        values g = [(- sum_of dy / k)%Q] /\
        gradientArrays s' !! tensor_id (t2 (node s)) = Some g)).
Proof.
  split; [|split].
  - intros s c Hc.
    set (P := fun s' => same_handles (node s) (node s') /\ dySizeScalar (node s') = Some c).
    assert (HP : ngw_closed P).
    { intros a b Hn _ _ HPa. unfold P in *. rewrite Hn. exact HPa. }
    assert (Hb : preserves P (backProp shouldBackProp)).
    { apply (preserves_backProp P shouldBackProp (node s)); [exact HP|intros s' Hs'; apply Hs'| |].
      - intros dy. unfold ensure_dySizeScalar.
        apply (preserves_this P (fun n => dySizeScalar n = Some c)); [intros s' Hs'; apply Hs'|].
        intros n Hn. rewrite Hn. apply preserves_ret.
      - intros u a _ s' Hs'. exact Hs'. }
    assert (Hs : P s) by (unfold P, same_handles; auto).
    apply (Hb s Hs).
  - destruct s as [[T1 T2 O C] inf grd nx sc al dp wr]; cbn.
    intros dy -> Hdy Hcase.
    destruct (shouldBackProp (tensor_id T1)) eqn:H1,
             (isScalarShape (tensor_shape T1)) eqn:S1,
             (shouldBackProp (tensor_id T2)) eqn:H2,
             (isScalarShape (tensor_shape T2)) eqn:S2;
      try (destruct Hcase as [[? ?]|[? ?]]; discriminate);
      exec; finish.
  - intros s dy c k Hc Hcs Hcv Hdy.
    assert (Hk : divisor_is (dySizeScalar (node s)) dy k) by (rewrite Hc; cbn; auto).
    split; intros H S.
    + destruct (backProp_scalar_t1 shouldBackProp s dy k Hdy Hk H S) as (s'&g&g2&?&_&?&?).
      exists s', g, g2. auto.
    + destruct (backProp_scalar_t2 shouldBackProp s dy k Hdy Hk H S) as (s'&g&?&_&?&?).
      exists s', g. auto.
Qed.

(** ** Forward pass *)

(** C1: [feedForward] stores under the output handle [A - B] for operands
    of the same shape, [c - B] when only [A] is scalar-shaped (holding [c])
    and [A - c] when only [B] is scalar-shaped (holding [c]). *)
Theorem feedForward_sub (s : St) (a b : NDArray) :
  inferenceArrays s !! tensor_id (t1 (node s)) = Some a ->
  inferenceArrays s !! tensor_id (t2 (node s)) = Some b ->
  wf a -> wf b ->
  (shape a = shape b ->
   exists s' r, run feedForward s = Ok tt s' /\
     inferenceArrays s' = <[tensor_id (outTensor (node s)) := r]> (inferenceArrays s) /\
     shape r = shape a /\ values r = zip_with Qminus (values a) (values b)) /\
  (isScalarShape (shape a) = true -> isScalarShape (shape b) = false ->
   exists s' r c, run feedForward s = Ok tt s' /\
     inferenceArrays s' = <[tensor_id (outTensor (node s)) := r]> (inferenceArrays s) /\
     values a = [c] /\ shape r = shape b /\ values r = map (fun x => c - x)%Q (values b)) /\
  (isScalarShape (shape a) = false -> isScalarShape (shape b) = true ->
   exists s' r c, run feedForward s = Ok tt s' /\
     inferenceArrays s' = <[tensor_id (outTensor (node s)) := r]> (inferenceArrays s) /\
     values b = [c] /\ shape r = shape a /\ values r = map (fun x => x - c)%Q (values a)).
Proof.
  destruct s as [[T1 T2 O C] inf grd nx sc al dp wr]; cbn.
  intros Ha Hb Wa Wb. split; [|split].
  - intros Hab. destruct (isScalarShape (shape a)) eqn:Sa.
    + destruct (wf_scalar a Wa Sa) as [ca Hca].
      assert (Sb : isScalarShape (shape b) = true) by congruence.
      destruct (wf_scalar b Wb Sb) as [cb Hcb].
      assert (Hsa : size a = 1) by (apply isScalarShape_size; exact Sa).
      clear Wa Wb. exec.
      eexists; exists (mkNDArray nx (shape b) [(ca - cb)%Q]).
      split; [reflexivity|]. cbn. rewrite ?Hab, ?Hcb. repeat split.
    + assert (Sb : isScalarShape (shape b) = false) by congruence.
      assert (Heq : arraysEqual (shape a) (shape b) = true) by (apply arraysEqual_spec; exact Hab).
      clear Wa Wb. exec.
      eexists; exists (mkNDArray nx (shape b) (zip_with Qminus (values a) (values b))).
      split; [reflexivity|]. cbn. repeat split.
  - intros Sa Sb. destruct (wf_scalar a Wa Sa) as [ca Hca].
    assert (Hsa : size a = 1) by (apply isScalarShape_size; exact Sa).
    clear Wa Wb. exec.
    eexists; exists (mkNDArray nx (shape b) (map (fun x => ca - x)%Q (values b))), ca.
    split; [reflexivity|]. cbn. repeat split.
  - intros Sa Sb. destruct (wf_scalar b Wb Sb) as [cb Hcb].
    assert (Hsb : size b = 1) by (apply isScalarShape_size; exact Sb).
    clear Wa Wb. exec.
    eexists; exists (mkNDArray nx (shape a) (map (fun x => x - cb)%Q (values a))), cb.
    split; [reflexivity|]. cbn. repeat split.
Qed.

(** ** Failures on absent entries *)

(** C8: an absent input value in [feedForward], or an absent output
    gradient in [backProp], makes the call fail in the very state it started
    from: neither Value Map (nor anything else) has been touched. *)
Theorem missing_entry_fails_unchanged (shouldBackProp : nat -> bool) (s : St) :
  ((inferenceArrays s !! tensor_id (t1 (node s)) = None \/
    inferenceArrays s !! tensor_id (t2 (node s)) = None) ->
   exists e, run feedForward s = Fail e s) /\
  (gradientArrays s !! tensor_id (outTensor (node s)) = None ->
   exists e, run (backProp shouldBackProp) s = Fail e s).
Proof.
  split.
  - intros Hnone. unfold_node.
    destruct (inferenceArrays s !! tensor_id (t1 (node s))) eqn:H1; cbn.
    + destruct Hnone as [Hn|Hn]; [discriminate|]. rewrite Hn; cbn. eauto.
    + eauto.
  - intros Hn. unfold_node. rewrite Hn. eauto.
Qed.

(** ** Release *)

(** Each [dispose] call: no-op without a cached scalar; with one, it
    disposes it and leaves the field set. *)
Lemma dispose_step (s : St) :
  match dySizeScalar (node s) with
  | None => run dispose s = Ok tt s
  | Some c => run dispose s = Ok tt (with_disposed s (arr_id c :: disposed s))
  end.
Proof. unfold_node. by destruct (dySizeScalar (node s)). Qed.

(** ** Scoped release *)

Lemma not_kept_spec (i : nat) (tr kp : list nat) :
  In i (not_kept tr kp) <-> In i tr /\ ~ In i kp.
Proof.
  unfold not_kept. rewrite filter_In, negb_true_iff.
  rewrite <- not_true_iff_false, existsb_exists.
  split; intros [H1 H2]; split; auto.
  - intros Hk. apply H2. exists i. split; auto. apply Nat.eqb_refl.
  - intros (j & Hj & E). apply Nat.eqb_eq in E. subst j. auto.
Qed.

(** The part of [l] in front of its suffix [suf]. *)
Ltac prefix_of l suf :=
  lazymatch l with
  | suf => let T := type of suf in
           lazymatch T with list ?A => constr:(@nil A) end
  | ?p ++ suf => p
  | ?x :: ?r => let r' := prefix_of r suf in constr:(x :: r')
  end.

Ltac app_refl :=
  lazymatch goal with
  | |- ?l = ?e ++ ?suf => let p := prefix_of l suf in unify e p; reflexivity
  end.

(** Replaces every equation between buffer ids by [True] or [False],
    as [lia] decides it. *)
Ltac decide_atoms :=
  repeat match goal with
    | |- context [?a = ?b :> nat] =>
        let E := fresh "E" in
        first
          [ assert (E : a = b <-> True) by (split; [intros _; exact I|intros _; lia])
          | assert (E : a = b <-> False) by (split; [intros ?; lia|intros []]) ];
        rewrite E; clear E
    end.

Ltac solve_clean :=
  do 3 eexists; split; [app_refl|split; [app_refl|split; [app_refl|]]];
  split; intros i Hi;
  [ rewrite <- ?in_rev, ?not_kept_spec in Hi; try destruct Hi as [Hi _]
  | rewrite <- ?in_rev, ?not_kept_spec ];
  cbn in *; repeat destruct Hi as [<-|Hi]; try contradiction;
  decide_atoms; tauto.

Lemma backProp_scope_clean (shouldBackProp : nat -> bool) (s s' : St) (dy : NDArray) :
  gradientArrays s !! tensor_id (outTensor (node s)) = Some dy ->
  arr_id dy < nextId s ->
  run (backProp shouldBackProp) s = Ok tt s' ->
  scope_clean s s'.
Proof.
  destruct s as [[T1 T2 O C] inf grd nx sc al dp wr]; cbn.
  intros Hdy Hlt.
  destruct (shouldBackProp (tensor_id T1)) eqn:H1;
    [destruct (isScalarShape (tensor_shape T1)) eqn:S1|];
  destruct (shouldBackProp (tensor_id T2)) eqn:H2;
    [destruct (isScalarShape (tensor_shape T2)) eqn:S2| |
     destruct (isScalarShape (tensor_shape T2)) eqn:S2| |
     destruct (isScalarShape (tensor_shape T2)) eqn:S2|];
  (destruct C as [c|]; [destruct (shape c) as [|d ds] eqn:Ec|]);
  exec; intros Hrun; try discriminate; injection Hrun as <-;
  unfold scope_clean, cache_created; cbn.
  all: solve_clean.
Qed.

Lemma feedForward_scope_clean (s s' : St) :
  run feedForward s = Ok tt s' -> scope_clean s s'.
Proof.
  destruct s as [[T1 T2 O C] inf grd nx sc al dp wr]; cbn.
  destruct (inf !! tensor_id T1) as [a|] eqn:Ha; [|exec; discriminate].
  destruct (inf !! tensor_id T2) as [b|] eqn:Hb; [|exec; discriminate].
  destruct (isScalarShape (shape a)) eqn:Sa;
    [destruct (Nat.eqb (size a) 1) eqn:Za
    |destruct (isScalarShape (shape b)) eqn:Sb;
      [destruct (Nat.eqb (size b) 1) eqn:Zb
      |destruct (arraysEqual (shape a) (shape b)) eqn:Eab]];
  exec; intros Hrun; try discriminate; injection Hrun as <-;
  unfold scope_clean, cache_created; cbn; solve_clean.
Qed.

(** C9 (as amended): after a successful [feedForward] or [backProp], the
    call has released only buffers it allocated, and the buffers it
    allocated that are still alive are exactly the arrays it wrote into a
    Value Map plus, on the call that creates it, the cached divisor
    [dySizeScalar]. *)
Theorem calls_release_temporaries :
  (forall (s s' : St), run feedForward s = Ok tt s' -> scope_clean s s') /\
  (forall (shouldBackProp : nat -> bool) (s s' : St) (dy : NDArray),
     gradientArrays s !! tensor_id (outTensor (node s)) = Some dy ->
     arr_id dy < nextId s ->
     run (backProp shouldBackProp) s = Ok tt s' -> scope_clean s s').
Proof.
  split; [apply feedForward_scope_clean|].
  intros shouldBackProp s s' dy. apply backProp_scope_clean.
Qed.

(** ** Further properties of the code *)

(** [feedForward], on success, makes exactly one Value Map write: the
    output array under [outTensor] in the forward map.  It leaves the node
    and the gradient map as they were. *)
Theorem feedForward_writes (s s' : St) :
  run feedForward s = Ok tt s' ->
  node s' = node s /\ gradientArrays s' = gradientArrays s /\
  exists r, inferenceArrays s' = <[tensor_id (outTensor (node s)) := r]> (inferenceArrays s) /\
    written s' = (Inference, tensor_id (outTensor (node s)), r) :: written s.
Proof.
  destruct s as [[T1 T2 O C] inf grd nx sc al dp wr]; cbn.
  destruct (inf !! tensor_id T1) as [a|] eqn:Ha; [|exec; discriminate].
  destruct (inf !! tensor_id T2) as [b|] eqn:Hb; [|exec; discriminate].
  destruct (isScalarShape (shape a)) eqn:Sa;
    [destruct (Nat.eqb (size a) 1) eqn:Za
    |destruct (isScalarShape (shape b)) eqn:Sb;
      [destruct (Nat.eqb (size b) 1) eqn:Zb
      |destruct (arraysEqual (shape a) (shape b)) eqn:Eab]].
  all: exec; intros Hrun; try discriminate; injection Hrun as <-; cbn.
  all: repeat split; eexists; split; reflexivity.
Qed.

(** Whatever makes [feedForward] fail (an absent input, or a kernel
    rejecting the stored arrays, e.g. two non-scalar arrays of different
    shapes in [math.sub]), it fails before any write or allocation: both
    Value Maps, the node, the write log and the allocations are unchanged. *)
Theorem feedForward_failure_no_write (s s' : St) (e : Err) :
  run feedForward s = Fail e s' ->
  node s' = node s /\ inferenceArrays s' = inferenceArrays s /\
  gradientArrays s' = gradientArrays s /\ written s' = written s /\
  allocated s' = allocated s.
Proof.
  destruct s as [[T1 T2 O C] inf grd nx sc al dp wr]; cbn.
  destruct (inf !! tensor_id T1) as [a|] eqn:Ha;
    [|exec; intros Hrun; injection Hrun as _ <-; repeat split].
  destruct (inf !! tensor_id T2) as [b|] eqn:Hb;
    [|exec; intros Hrun; injection Hrun as _ <-; repeat split].
  destruct (isScalarShape (shape a)) eqn:Sa;
    [destruct (Nat.eqb (size a) 1) eqn:Za
    |destruct (isScalarShape (shape b)) eqn:Sb;
      [destruct (Nat.eqb (size b) 1) eqn:Zb
      |destruct (arraysEqual (shape a) (shape b)) eqn:Eab]].
  all: exec; intros Hrun; try discriminate; injection Hrun as _ <-; cbn.
  all: repeat split.
Qed.

(** With both stored operands scalar-shaped, [feedForward] takes the
    left-scalar branch: the output holds [a - b] and has the right operand's
    shape. *)
Theorem feedForward_both_scalar (s : St) (a b : NDArray) :
  inferenceArrays s !! tensor_id (t1 (node s)) = Some a ->
  inferenceArrays s !! tensor_id (t2 (node s)) = Some b ->
  wf a -> wf b ->
  isScalarShape (shape a) = true -> isScalarShape (shape b) = true ->
  exists s' r ca cb, run feedForward s = Ok tt s' /\
    values a = [ca] /\ values b = [cb] /\
    inferenceArrays s' = <[tensor_id (outTensor (node s)) := r]> (inferenceArrays s) /\
    shape r = shape b /\ values r = [(ca - cb)%Q].
Proof.
  destruct s as [[T1 T2 O C] inf grd nx sc al dp wr]; cbn.
  intros Ha Hb Wa Wb Sa Sb.
  destruct (wf_scalar a Wa Sa) as [ca Hca]. destruct (wf_scalar b Wb Sb) as [cb Hcb].
  assert (Hsa : size a = 1) by (apply isScalarShape_size; exact Sa).
  clear Wa Wb. exec.
  eexists; exists (mkNDArray nx (shape b) [(ca - cb)%Q]), ca, cb.
  split; [reflexivity|]. cbn. rewrite ?Hcb. repeat split.
Qed.

(** When the output handle is neither input handle, running [feedForward]
    again after a successful run succeeds and stores an output with the same
    shape and values: the first run changes neither input. *)
Theorem feedForward_rerun (s s1 : St) (r : NDArray) :
  tensor_id (outTensor (node s)) <> tensor_id (t1 (node s)) ->
  tensor_id (outTensor (node s)) <> tensor_id (t2 (node s)) ->
  run feedForward s = Ok tt s1 ->
  inferenceArrays s1 !! tensor_id (outTensor (node s)) = Some r ->
  exists s2 r', run feedForward s1 = Ok tt s2 /\
    inferenceArrays s2 !! tensor_id (outTensor (node s)) = Some r' /\
    shape r' = shape r /\ values r' = values r.
Proof.
  destruct s as [[T1 T2 O C] inf grd nx sc al dp wr]; cbn.
  intros N1 N2.
  destruct (inf !! tensor_id T1) as [a|] eqn:Ha; [|exec; discriminate].
  destruct (inf !! tensor_id T2) as [b|] eqn:Hb; [|exec; discriminate].
  destruct (isScalarShape (shape a)) eqn:Sa;
    [destruct (Nat.eqb (size a) 1) eqn:Za
    |destruct (isScalarShape (shape b)) eqn:Sb;
      [destruct (Nat.eqb (size b) 1) eqn:Zb
      |destruct (arraysEqual (shape a) (shape b)) eqn:Eab]].
  all: exec; intros Hrun; try discriminate; injection Hrun as <-; cbn.
  all: rewrite lookup_insert_eq; intros [= <-].
  all: repeat (first [rewrite lookup_insert_ne by congruence | rewrite Ha | rewrite Hb
                     | rewrite Sa | rewrite Za | rewrite Sb | rewrite Zb | rewrite Eab]; cbn).
  all: rewrite ?dispose_all_ok; cbn.
  all: do 2 eexists; split; [reflexivity|]; cbn; rewrite lookup_insert_eq; auto.
Qed.

(** [feedForward] uses the handles only through their ids: it never
    consults their declared shapes (its dispatch reads the shapes of the
    stored arrays), so a node whose handles have the same ids and other
    shapes runs identically. *)
Theorem feedForward_ignores_declared_shapes (s : St) (n : Subtract) :
  tensor_id (t1 n) = tensor_id (t1 (node s)) ->
  tensor_id (t2 n) = tensor_id (t2 (node s)) ->
  tensor_id (outTensor n) = tensor_id (outTensor (node s)) ->
  run feedForward (with_node s n) = map_res (fun s' => with_node s' n) (run feedForward s).
Proof.
  destruct s as [[T1 T2 O C] inf grd nx sc al dp wr], n as [U1 U2 V D]; cbn.
  intros E1 E2 E3. unfold with_node, map_res. unfold_node. rewrite E1, E2, E3.
  destruct (inf !! tensor_id T1) as [a|] eqn:Ha; cbn; [|reflexivity].
  destruct (inf !! tensor_id T2) as [b|] eqn:Hb; cbn; [|reflexivity].
  destruct (isScalarShape (shape a)) eqn:Sa;
    [destruct (Nat.eqb (size a) 1) eqn:Za
    |destruct (isScalarShape (shape b)) eqn:Sb;
      [destruct (Nat.eqb (size b) 1) eqn:Zb
      |destruct (arraysEqual (shape a) (shape b)) eqn:Eab]];
  cbn; rewrite ?dispose_all_ok; reflexivity.
Qed.

(** A successful [backProp] writes exactly one gradient per input that
    requires one, [t1]'s first and then [t2]'s, and nothing else: the
    forward map is unchanged and the gradient map differs only at those
    handles. *)
Theorem backProp_writes (shouldBackProp : nat -> bool) (s s' : St) :
  run (backProp shouldBackProp) s = Ok tt s' ->
  inferenceArrays s' = inferenceArrays s /\
  exists g1 g2,
    written s' =
      (if shouldBackProp (tensor_id (t2 (node s))) then [(Gradient, tensor_id (t2 (node s)), g2)] else []) ++
      (if shouldBackProp (tensor_id (t1 (node s))) then [(Gradient, tensor_id (t1 (node s)), g1)] else []) ++
      written s /\
    gradientArrays s' =
      (if shouldBackProp (tensor_id (t2 (node s))) then <[tensor_id (t2 (node s)) := g2]> else id)
      ((if shouldBackProp (tensor_id (t1 (node s))) then <[tensor_id (t1 (node s)) := g1]> else id)
         (gradientArrays s)).
Proof.
  destruct s as [[T1 T2 O C] inf grd nx sc al dp wr]; cbn.
  destruct (grd !! tensor_id O) as [dy|] eqn:Hdy; [|exec; discriminate].
  destruct (shouldBackProp (tensor_id T1)) eqn:H1;
    [destruct (isScalarShape (tensor_shape T1)) eqn:S1|];
  destruct (shouldBackProp (tensor_id T2)) eqn:H2;
    [destruct (isScalarShape (tensor_shape T2)) eqn:S2| |
     destruct (isScalarShape (tensor_shape T2)) eqn:S2| |
     destruct (isScalarShape (tensor_shape T2)) eqn:S2|];
  (destruct C as [c|]; [destruct (shape c) as [|d ds] eqn:Ec|]);
  exec; intros Hrun; try discriminate; injection Hrun as <-; cbn.
  all: split; [reflexivity|].
  all: do 2 eexists.
  all: try (split; reflexivity).
  Unshelve. all: first [exact dy | exact 0 | exact [] | exact []].
Qed.

(** With the output gradient present and neither input requiring a
    gradient, [backProp] is a no-op: it succeeds and leaves the whole
    state, the scope stack included, as it was. *)
Theorem backProp_nothing_required (shouldBackProp : nat -> bool) (s : St) (dy : NDArray) :
  gradientArrays s !! tensor_id (outTensor (node s)) = Some dy ->
  shouldBackProp (tensor_id (t1 (node s))) = false ->
  shouldBackProp (tensor_id (t2 (node s))) = false ->
  run (backProp shouldBackProp) s = Ok tt s.
Proof.
  destruct s as [[T1 T2 O C] inf grd nx sc al dp wr]; cbn.
  intros Hdy H1 H2. exec. unfold not_kept; cbn. reflexivity.
Qed.

(** For a node computing [x - x] (the same handle as both operands), the
    second write replaces the first: the gradient left for [x] is only the
    right-hand operand's, [-dy] for a non-scalar [x] and [-sum(dy)/dy.size]
    for a scalar one; the two contributions are not added. *)
Theorem backProp_self_subtraction (shouldBackProp : nat -> bool) (s : St) (dy : NDArray) :
  gradientArrays s !! tensor_id (outTensor (node s)) = Some dy ->
  t1 (node s) = t2 (node s) ->
  shouldBackProp (tensor_id (t1 (node s))) = true ->
  (isScalarShape (tensor_shape (t1 (node s))) = false ->
   exists s' nd, run (backProp shouldBackProp) s = Ok tt s' /\
     shape nd = shape dy /\ values nd = map Qopp (values dy) /\
     gradientArrays s' = <[tensor_id (t1 (node s)) := nd]> (gradientArrays s)) /\
  (isScalarShape (tensor_shape (t1 (node s))) = true ->
   dySizeScalar (node s) = None ->
   exists s' g, run (backProp shouldBackProp) s = Ok tt s' /\
     shape g = [] /\ values g = [(- sum_of dy / inject_Z (Z.of_nat (size dy)))%Q] /\
     gradientArrays s' = <[tensor_id (t1 (node s)) := g]> (gradientArrays s)).
Proof.
  destruct s as [[T1 T2 O C] inf grd nx sc al dp wr]; cbn.
  intros Hdy E H1. unfold sum_of. split.
  - intros S1. exec. rewrite <- E, H1, S1; cbn. rewrite ?dispose_all_ok; cbn.
    eexists; exists (mkNDArray nx (shape dy) (map Qopp (values dy))).
    split; [reflexivity|]. cbn. repeat split. apply insert_insert_eq.
  - intros S1 ->. exec. rewrite <- E, H1, S1; cbn. rewrite ?dispose_all_ok; cbn.
    do 2 eexists. split; [reflexivity|]. cbn.
    refine (conj _ (conj _ _)); [..|apply insert_insert_eq]; reflexivity.
Qed.

(** A non-scalar [t1] that requires a gradient gets the very buffer [dy]
    (same array identity, not a copy) unless [t2], the same handle, writes
    over it. *)
Theorem backProp_aliases_dy (shouldBackProp : nat -> bool) (s s' : St) (dy : NDArray) :
  gradientArrays s !! tensor_id (outTensor (node s)) = Some dy ->
  shouldBackProp (tensor_id (t1 (node s))) = true ->
  isScalarShape (tensor_shape (t1 (node s))) = false ->
  tensor_id (t2 (node s)) <> tensor_id (t1 (node s)) ->
  run (backProp shouldBackProp) s = Ok tt s' ->
  gradientArrays s' !! tensor_id (t1 (node s)) = Some dy.
Proof.
  destruct s as [[T1 T2 O C] inf grd nx sc al dp wr]; cbn.
  intros Hdy H1 S1 Hne.
  destruct (shouldBackProp (tensor_id T2)) eqn:H2;
    [destruct (isScalarShape (tensor_shape T2)) eqn:S2|];
  (destruct C as [c|]; [destruct (shape c) as [|d ds] eqn:Ec|]);
  exec; intros Hrun; try discriminate; injection Hrun as <-; cbn;
  rewrite ?lookup_insert_ne, ?lookup_insert_eq by congruence.
  all: reflexivity.
Qed.

(** [backProp] changes the node (by caching [dySizeScalar]) only through a
    scalar-shaped input that requires a gradient: without one, whatever the
    outcome, the node is left as it was. *)
Theorem backProp_keeps_node_without_scalar_branch (shouldBackProp : nat -> bool) (s : St) :
  (shouldBackProp (tensor_id (t1 (node s))) = false \/
   isScalarShape (tensor_shape (t1 (node s))) = false) ->
  (shouldBackProp (tensor_id (t2 (node s))) = false \/
   isScalarShape (tensor_shape (t2 (node s))) = false) ->
  node (state_of (run (backProp shouldBackProp) s)) = node s.
Proof.
  destruct s as [[T1 T2 O C] inf grd nx sc al dp wr]; cbn.
  intros Hc1 Hc2.
  destruct (grd !! tensor_id O) as [dy|] eqn:Hdy; [|exec; reflexivity].
  destruct (shouldBackProp (tensor_id T1)) eqn:H1;
    [destruct (isScalarShape (tensor_shape T1)) eqn:S1;
       [destruct Hc1; discriminate|]|];
  destruct (shouldBackProp (tensor_id T2)) eqn:H2;
    [destruct (isScalarShape (tensor_shape T2)) eqn:S2;
       [destruct Hc2; discriminate|]| |
     destruct (isScalarShape (tensor_shape T2)) eqn:S2;
       [destruct Hc2; discriminate|]|];
  exec; reflexivity.
Qed.


(** ** Concrete runs: the spec's examples, counterexamples and witnesses *)

Example feedForward_example_same_shape :
  option_map values (inferenceArrays (state_of (run feedForward (fw_state ex_A_vec ex_B_vec))) !! 3)
  = Some (map inject_Z [2; 3]%Z).
Proof. vm_compute. reflexivity. Qed.

Example feedForward_example_left_scalar :
  option_map values (inferenceArrays (state_of (run feedForward (fw_state ex_A_scalar ex_B_vec3))) !! 3)
  = Some (map inject_Z [4; 3; 2]%Z).
Proof. vm_compute. reflexivity. Qed.

Example feedForward_example_right_scalar :
  option_map values (inferenceArrays (state_of (run feedForward (fw_state ex_A_vec3 ex_B_scalar))) !! 3)
  = Some (map inject_Z [-1; 0; 1]%Z).
Proof. vm_compute. reflexivity. Qed.

Lemma feedForward_sub_witness :
  exists s' r c, run feedForward (fw_state ex_A_scalar ex_B_vec3) = Ok tt s' /\
    inferenceArrays s' = <[3 := r]> (inferenceArrays (fw_state ex_A_scalar ex_B_vec3)) /\
    values ex_A_scalar = [c] /\ shape r = shape ex_B_vec3 /\
    values r = map (fun x => c - x)%Q (values ex_B_vec3).
Proof.
  exact (proj1 (proj2 (feedForward_sub (fw_state ex_A_scalar ex_B_vec3) ex_A_scalar ex_B_vec3
           eq_refl eq_refl eq_refl eq_refl)) eq_refl eq_refl).
Defined.

Lemma backProp_same_shape_witness :
  exists s' nd, run (backProp all_grads) ex_full_state = Ok tt s' /\
    shape nd = [3] /\ values nd = map Qopp (map inject_Z [1; 1; 1]%Z) /\
    gradientArrays s' =
      <[2 := nd]> (<[1 := arr 10 [3] [1; 1; 1]%Z]> (gradientArrays ex_full_state)).
Proof.
  exact (backProp_same_shape all_grads ex_full_state (arr 10 [3] [1; 1; 1]%Z)
           eq_refl eq_refl eq_refl eq_refl eq_refl).
Defined.

Lemma backProp_scalar_mean_witness :
  exists s' g g2, run (backProp all_grads) before_second = Ok tt s' /\
    shape g = [] /\ values g = [(sum_of ex_dy2 / inject_Z 4)%Q] /\
    gradientArrays s' = <[2 := g2]> (<[1 := g]> (gradientArrays before_second)).
Proof.
  exact (proj1 (backProp_scalar_mean all_grads before_second ex_dy2 (inject_Z 4)
                  ltac:(vm_compute; reflexivity) ltac:(vm_compute; split; reflexivity))
           eq_refl eq_refl).
Defined.

Example backProp_example_mean :
  (sum_of ex_dy / inject_Z (Z.of_nat (size ex_dy)) == 2)%Q.
Proof. reflexivity. Qed.

(** C3 fails as stated: on a second call whose [dy] has two elements, the
    left scalar's gradient is [sum(dy) / 4] = 1, not the mean 2 of [dy]. *)
Lemma backProp_second_call_not_mean :
  match run (backProp all_grads) before_second with
  | Ok _ s' =>
      match gradientArrays s' !! 1 with
      | Some g => exists c, values g = [c] /\ (c == 1)%Q /\
                   ~ (c == sum_of ex_dy2 / inject_Z (Z.of_nat (size ex_dy2)))%Q
      | None => False
      end
  | Fail _ _ => False
  end.
Proof.
  vm_compute. eexists. split; [reflexivity|]. split; [reflexivity|discriminate].
Qed.

(** C6: [dispose] never clears [dySizeScalar]; on a node whose divisor was
    cached, two [dispose] calls both succeed and dispose that same buffer
    twice. *)
Theorem dispose_twice_disposes_twice :
  (exists c, dySizeScalar (node after_first) = Some c /\ arr_id c = 21) /\
  succeeded (run (dispose ;; dispose) after_first) = true /\
  disposed (state_of (run (dispose ;; dispose) after_first)) = 21 :: 21 :: disposed after_first.
Proof.
  split; [|split; vm_compute; reflexivity].
  vm_compute. eexists. split; reflexivity.
Qed.

Lemma backProp_skips_unrequired_witness :
  gradientArrays (state_of (run (backProp (fun i => negb (Nat.eqb i 1))) ex_state)) !! 1 =
    gradientArrays ex_state !! 1 /\
  exists new, written (state_of (run (backProp (fun i => negb (Nat.eqb i 1))) ex_state))
                = new ++ written ex_state /\
    Forall (fun e => e.1 <> (Gradient, 1)) new.
Proof.
  exact (backProp_skips_unrequired (fun i => negb (Nat.eqb i 1)) ex_state (mkTensor 1 [])
           eq_refl).
Defined.

Lemma missing_entry_fails_unchanged_witness :
  (exists e, run feedForward ex_state = Fail e ex_state) /\
  (exists e, run (backProp all_grads) (init_state ex_node ∅ ∅ 0) =
               Fail e (init_state ex_node ∅ ∅ 0)).
Proof.
  split.
  - exact (proj1 (missing_entry_fails_unchanged all_grads ex_state) (or_introl eq_refl)).
  - exact (proj2 (missing_entry_fails_unchanged all_grads (init_state ex_node ∅ ∅ 0)) eq_refl).
Defined.

Lemma dySizeScalar_frozen_witness :
  dySizeScalar (node (state_of (run (backProp all_grads) before_second))) =
    Some (mkNDArray 21 [] [inject_Z 4]) /\
  (exists s' c, run (backProp all_grads) ex_state = Ok tt s' /\
     dySizeScalar (node s') = Some c /\ shape c = [] /\
     values c = [inject_Z (Z.of_nat (size ex_dy))]) /\
  (exists s' g g2, run (backProp all_grads) before_second = Ok tt s' /\
     values g = [(sum_of ex_dy2 / inject_Z 4)%Q] /\
     gradientArrays s' = <[2 := g2]> (<[1 := g]> (gradientArrays before_second))).
Proof.
  split; [|split].
  - exact (proj1 (dySizeScalar_frozen all_grads) before_second
             (mkNDArray 21 [] [inject_Z 4]) ltac:(vm_compute; reflexivity)).
  - exact (proj1 (proj2 (dySizeScalar_frozen all_grads)) ex_state ex_dy eq_refl eq_refl
             (or_introl (conj eq_refl eq_refl))).
  - exact (proj1 (proj2 (proj2 (dySizeScalar_frozen all_grads)) before_second ex_dy2
             (mkNDArray 21 [] [inject_Z 4]) (inject_Z 4)
             ltac:(vm_compute; reflexivity) eq_refl eq_refl ltac:(vm_compute; reflexivity))
             eq_refl eq_refl).
Defined.

(** C9 fails as stated: the first [backProp] of [ex_node] allocates the
    divisor buffer 21, which outlives the call's scope without being written
    into any Value Map. *)
Lemma backProp_cached_divisor_survives :
  allocated ex_state = [] /\ disposed ex_state = [] /\ written ex_state = [] /\
  succeeded (run (backProp all_grads) ex_state) = true /\
  In 21 (allocated after_first) /\ ~ In 21 (disposed after_first) /\
  ~ In 21 (map (fun e => arr_id e.2) (written after_first)).
Proof.
  vm_compute. repeat split; try tauto; lia.
Qed.

Lemma calls_release_temporaries_witness :
  scope_clean ex_state after_first.
Proof.
  refine (proj2 calls_release_temporaries all_grads ex_state after_first ex_dy
            eq_refl ltac:(vm_compute; lia) eq_refl).
Defined.

(** ** Concrete runs of the further properties *)

Lemma feedForward_writes_witness :
  run feedForward fw_vec = Ok tt fw_vec_after /\
  node fw_vec_after = node fw_vec /\ gradientArrays fw_vec_after = gradientArrays fw_vec /\
  exists r, inferenceArrays fw_vec_after = <[3 := r]> (inferenceArrays fw_vec) /\
    written fw_vec_after = (Inference, 3, r) :: written fw_vec.
Proof.
  assert (H : run feedForward fw_vec = Ok tt fw_vec_after) by (vm_compute; reflexivity).
  split; [exact H|]. exact (feedForward_writes fw_vec fw_vec_after H).
Defined.

Lemma feedForward_failure_no_write_witness :
  run feedForward fw_mismatch = Fail (AssertionFailed "Error in sub"%string) fw_mismatch_after /\
  node fw_mismatch_after = node fw_mismatch /\
  inferenceArrays fw_mismatch_after = inferenceArrays fw_mismatch /\
  gradientArrays fw_mismatch_after = gradientArrays fw_mismatch /\
  written fw_mismatch_after = written fw_mismatch /\
  allocated fw_mismatch_after = allocated fw_mismatch.
Proof.
  assert (H : run feedForward fw_mismatch =
              Fail (AssertionFailed "Error in sub"%string) fw_mismatch_after)
    by (vm_compute; reflexivity).
  split; [exact H|]. exact (feedForward_failure_no_write fw_mismatch fw_mismatch_after _ H).
Defined.

Lemma feedForward_both_scalar_witness :
  exists s' r ca cb, run feedForward fw_scalars = Ok tt s' /\
    values ex_A_scalar = [ca] /\ values ex_B_scalar = [cb] /\
    inferenceArrays s' = <[3 := r]> (inferenceArrays fw_scalars) /\
    shape r = shape ex_B_scalar /\ values r = [(ca - cb)%Q].
Proof.
  exact (feedForward_both_scalar fw_scalars ex_A_scalar ex_B_scalar
           eq_refl eq_refl eq_refl eq_refl eq_refl eq_refl).
Defined.

Lemma feedForward_rerun_witness :
  exists s2 r', run feedForward fw_vec_after = Ok tt s2 /\
    inferenceArrays s2 !! 3 = Some r' /\
    shape r' = shape (arr 20 [2] [2; 3]%Z) /\ values r' = values (arr 20 [2] [2; 3]%Z).
Proof.
  exact (feedForward_rerun fw_vec fw_vec_after (arr 20 [2] [2; 3]%Z)
           ltac:(vm_compute; discriminate) ltac:(vm_compute; discriminate)
           ltac:(vm_compute; reflexivity) ltac:(vm_compute; reflexivity)).
Defined.

Lemma feedForward_ignores_declared_shapes_witness :
  run feedForward (with_node fw_vec ex_redeclared_node) =
  map_res (fun s' => with_node s' ex_redeclared_node) (run feedForward fw_vec).
Proof.
  exact (feedForward_ignores_declared_shapes fw_vec ex_redeclared_node eq_refl eq_refl eq_refl).
Defined.

Lemma backProp_writes_witness :
  run (backProp all_grads) ex_state = Ok tt after_first /\
  inferenceArrays after_first = inferenceArrays ex_state /\
  exists g1 g2,
    written after_first = [(Gradient, 2, g2)] ++ [(Gradient, 1, g1)] ++ written ex_state /\
    gradientArrays after_first = <[2 := g2]> (<[1 := g1]> (gradientArrays ex_state)).
Proof.
  assert (H : run (backProp all_grads) ex_state = Ok tt after_first)
    by (vm_compute; reflexivity).
  split; [exact H|]. exact (backProp_writes all_grads ex_state after_first H).
Defined.

Lemma backProp_nothing_required_witness :
  run (backProp no_grads) ex_state = Ok tt ex_state.
Proof.
  exact (backProp_nothing_required no_grads ex_state ex_dy eq_refl eq_refl eq_refl).
Defined.

Lemma backProp_self_subtraction_witness :
  exists s' nd, run (backProp all_grads) ex_self_state = Ok tt s' /\
    shape nd = shape (arr 10 [3] [1; 1; 1]%Z) /\
    values nd = map Qopp (values (arr 10 [3] [1; 1; 1]%Z)) /\
    gradientArrays s' = <[1 := nd]> (gradientArrays ex_self_state).
Proof.
  exact (proj1 (backProp_self_subtraction all_grads ex_self_state (arr 10 [3] [1; 1; 1]%Z)
                  eq_refl eq_refl eq_refl) eq_refl).
Defined.

Lemma backProp_aliases_dy_witness :
  gradientArrays ex_full_after !! 1 = Some (arr 10 [3] [1; 1; 1]%Z).
Proof.
  exact (backProp_aliases_dy all_grads ex_full_state ex_full_after (arr 10 [3] [1; 1; 1]%Z)
           eq_refl eq_refl eq_refl ltac:(vm_compute; discriminate)
           ltac:(vm_compute; reflexivity)).
Defined.

Lemma backProp_keeps_node_without_scalar_branch_witness :
  node (state_of (run (backProp all_grads) ex_full_state)) = node ex_full_state.
Proof.
  exact (backProp_keeps_node_without_scalar_branch all_grads ex_full_state
           (or_intror eq_refl) (or_intror eq_refl)).
Defined.

